(** * express-jobly: the partial-update SQL builder and the authorization
    middleware, embedded shallowly and verified.

    Layout: JavaScript scalars and strings ([Js]), the error classes
    ([Errors]), the SQL helper ([Sql]), the middleware of
    middleware/auth.js ([Auth]), the Company model ([Company]), the
    guard stacks and two handlers of the routes ([Routes]), then the
    theorems. *)

From Stdlib Require Import String Ascii ZArith List DecimalString DecimalNat Lia.
From stdpp Require Import gmap strings list fin_maps.

Local Open Scope string_scope.

(* ===================================================================== *)
(** ** JavaScript values *)
(* ===================================================================== *)

Module Js.

(** The scalars that travel through the code: token claims, request
    parameters, column values. Numbers are the integral ones. *)
Inductive jsval : Type :=
| JUndefined
| JNull
| JBool (b : bool)
| JNum (n : Z)
| JStr (s : string).

#[global] Instance jsval_eq_dec : EqDecision jsval.
Proof. solve_decision. Defined.

(** ToBoolean: what [if (v)] and [!v] look at. *)
Definition truthy (v : jsval) : bool :=
  match v with
  | JUndefined | JNull => false
  | JBool b => b
  | JNum n => negb (n =? 0)%Z
  | JStr s => negb (String.eqb s "")
  end.

(** [a === b] on scalars: same type and same value. *)
Definition strict_eq (a b : jsval) : bool := bool_decide (a = b).

(** [a !== b]. *)
Definition strict_neq (a b : jsval) : bool := negb (strict_eq a b).

(** An object whose properties hold scalars; reading a property that is
    not there gives [undefined]. Objects themselves are always truthy. *)
Abbreviation object := (gmap string jsval).

Definition prop (o : object) (name : string) : jsval :=
  default JUndefined (o !! name).

(** Number to string, as string concatenation and template literals do
    it for a non-negative integer: decimal, no sign, no leading zero. *)
Definition number_to_string (n : nat) : string :=
  NilEmpty.string_of_uint (Nat.to_uint n).

(** The double-quote character, as a one-character string. *)
Definition dquote : string := String (ascii_of_nat 34) EmptyString.

(** [Array.prototype.join]. *)
Definition join (sep : string) (parts : list string) : string :=
  String.concat sep parts.

(** White space that [String.prototype.trim] removes, among the code
    units a header value can hold (0..255): TAB, LF, VT, FF, CR, SP and
    NBSP. *)
Definition is_space (c : ascii) : bool :=
  let n := nat_of_ascii c in
  (((9 <=? n) && (n <=? 13)) || (n =? 32) || (n =? 160))%nat.

Fixpoint trim_start (s : string) : string :=
  match s with
  | EmptyString => EmptyString
  | String c rest => if is_space c then trim_start rest else s
  end.

Fixpoint trim_end (s : string) : string :=
  match s with
  | EmptyString => EmptyString
  | String c rest =>
      match trim_end rest with
      | EmptyString => if is_space c then EmptyString else String c EmptyString
      | kept => String c kept
      end
  end.

Definition trim (s : string) : string := trim_end (trim_start s).

(** [s.replace(/^[Bb]earer /, "")]: one leading "Bearer " or "bearer "
    is dropped, anything else is left as it is. *)
Definition strip_bearer (s : string) : string :=
  match s with
  | String b rest =>
      if (Ascii.eqb b "B" || Ascii.eqb b "b")%char && String.prefix "earer " rest
      then String.substring 6 (String.length rest - 6)%nat rest
      else s
  | EmptyString => s
  end.

(** Does [needle] occur in [s]? *)
Fixpoint contains (needle s : string) : bool :=
  String.prefix needle s ||
  match s with
  | EmptyString => false
  | String _ rest => contains needle rest
  end.

(** ToString, as a template literal applies it to a scalar. For a number
    it is Number::toString, which works on the IEEE double (the shortest
    digits that read back as the same double, in exponent form from
    1e21 on); doubles are outside this embedding, so that function is a
    parameter. *)
Definition to_string (Number_toString : Z -> string) (v : jsval) : string :=
  match v with
  | JUndefined => "undefined"
  | JNull => "null"
  | JBool true => "true"
  | JBool false => "false"
  | JNum n => Number_toString n
  | JStr s => s
  end.

(** Plain decimal digits with a minus sign, which is what Number::toString
    gives for the integers up to 2^53 in size; it stands in for the
    parameter in examples. *)
Definition plain_decimal (n : Z) : string := NilZero.string_of_int (Z.to_int n).

End Js.
Export Js.

(* ===================================================================== *)
(** ** Error classes *)
(* ===================================================================== *)

Module Errors.

(** Modelled from the spec: the error classes of expressError.js, which
    is not among the sources. One constructor per class; the argument is
    the message the call site passes ([None] when it passes none and the
    class supplies its default). *)
Inductive ExpressError : Type :=
| BadRequestError (message : option string)
| UnauthorizedError (message : option string)
| ForbiddenError (message : option string)
| NotFoundError (message : option string).

(** The taxonomy kinds of the specification. *)
Inductive kind : Type := BadRequest | Unauthorized | Forbidden | NotFound.

Definition kind_of (e : ExpressError) : kind :=
  match e with
  | BadRequestError _ => BadRequest
  | UnauthorizedError _ => Unauthorized
  | ForbiddenError _ => Forbidden
  | NotFoundError _ => NotFound
  end.

Definition message_of (e : ExpressError) : option string :=
  match e with
  | BadRequestError m | UnauthorizedError m | ForbiddenError m | NotFoundError m => m
  end.

End Errors.
Export Errors.

(* ===================================================================== *)
(** ** helpers/sql: sqlForPartialUpdate *)
(* ===================================================================== *)

Module Sql.

(** A patch: the entries of the data object in its iteration order. *)
Abbreviation patch := (list (string * jsval)).

(** The result object [{ setCols, values }] (the specification's
    CompiledPatch, with [setCols] its setClause). *)
Record CompiledPatch : Type := mkCompiledPatch {
  setCols : string;
  values : list jsval
}.

(** Modelled from the spec: the storage column of a key is the entry of
    the field-name map when there is one, the key itself otherwise. *)
Definition column (jsToSql : gmap string string) (key : string) : string :=
  default key (jsToSql !! key).

(** Modelled from the spec: the fragment emitted for a key at a 1-based
    position, the quoted column followed by [=$position]. *)
Definition fragment (jsToSql : gmap string string) (key : string) (position : nat) : string :=
  dquote +:+ column jsToSql key +:+ dquote +:+ "=$" +:+ number_to_string position.

(** Modelled from the spec: one fragment per key, in order, the position
    counted up by one per key from [position]. *)
Fixpoint fragments (jsToSql : gmap string string) (position : nat) (keys : list string)
  : list string :=
  match keys with
  | [] => []
  | key :: rest => fragment jsToSql key position :: fragments jsToSql (S position) rest
  end.

(** Modelled from the spec: helpers/sql.js is not among the sources, only
    its tests and its caller are. [sqlForPartialUpdate dataToUpdate
    jsToSql] is the specification's [compile(patch, fieldNameMap)]: an
    empty patch is a BadRequest error with the message "No data";
    otherwise the fragments, numbered from 1, are joined with a comma and
    a space, and the values are the original ones in key order. *)
Definition sqlForPartialUpdate (dataToUpdate : patch) (jsToSql : gmap string string)
  : ExpressError + CompiledPatch :=
  match dataToUpdate with
  | [] => inl (BadRequestError (Some "No data"))
  | _ :: _ =>
      inr {| setCols := join ", " (fragments jsToSql 1 (dataToUpdate.*1));
             values := dataToUpdate.*2 |}
  end.

(** The patch and the expected setCols of the tests in sql.test.js. *)
Definition aliya : patch := [("firstName", JStr "Aliya"); ("age", JNum 32)].

Definition aliya_translated : string :=
  dquote +:+ "first_name" +:+ dquote +:+ "=$1, " +:+ dquote +:+ "age" +:+ dquote +:+ "=$2".

Definition aliya_untranslated : string :=
  dquote +:+ "firstName" +:+ dquote +:+ "=$1, " +:+ dquote +:+ "age" +:+ dquote +:+ "=$2".

End Sql.
Export Sql.


(* ===================================================================== *)
(** ** middleware/auth: the four middleware functions *)
(* ===================================================================== *)

Module Auth.

(** What a middleware reads of [req]: the headers (the object may be
    missing altogether) and the route parameters. *)
Record request : Type := mkRequest {
  headers : option (gmap string string);
  params : gmap string string
}.

(** What a middleware reads and writes of [res]: [res.locals], whose
    [user] property is the per-request identity slot. It holds the
    decoded token payload, an object. *)
Record response : Type := mkResponse {
  locals : gmap string object
}.

(** How a middleware ends: [next()] is [Next None], [next(err)] is
    [Next (Some err)]. *)
Inductive next_call : Type :=
| Next (err : option ExpressError).

(** A middleware takes the request and the response and hands back the
    response as it left it, with its call of [next]. *)
Definition middleware : Type := request -> response -> response * next_call.

(** [res.locals.user]: [None] is [undefined]. *)
Definition user (res : response) : option object := locals res !! "user".

(** [res.locals.user = payload]. *)
Definition set_user (res : response) (payload : object) : response :=
  {| locals := <["user" := payload]> (locals res) |}.

(** [req.params.username]. *)
Definition param (req : request) (name : string) : jsval :=
  from_option JStr JUndefined (params req !! name).

(** [req.headers && req.headers.authorization]. *)
Definition authHeader (req : request) : option string :=
  match headers req with
  | None => None
  | Some hs => hs !! "authorization"
  end.

(** The token handed to [verify]: there is one when the header is there
    and is not the empty string (the test [if (authHeader)]); it is the
    header without its "Bearer " prefix, trimmed. *)
Definition bearer_token (req : request) : option string :=
  match authHeader req with
  | Some h => if truthy (JStr h) then Some (trim (strip_bearer h)) else None
  | None => None
  end.

Section WithJwt.

(** jsonwebtoken's [verify] and the configured secret: [None] stands for
    any exception it throws (malformed, expired, wrong signature). *)
Variable jwt_verify : string -> string -> option object.
Variable SECRET_KEY : string.

(** authenticateJWT: the [catch] branch is where a throwing [verify]
    ends up, and it calls [next()] like the [try] branch does. *)
Definition authenticateJWT (req : request) (res : response) : response * next_call :=
  match bearer_token req with
  | Some token =>
      match jwt_verify token SECRET_KEY with
      | Some payload => (set_user res payload, Next None)
      | None => (res, Next None)
      end
  | None => (res, Next None)
  end.

(** The request carries no credential that verifies: there is no token,
    or [verify] throws on it. *)
Definition rejected (req : request) : Prop :=
  match bearer_token req with
  | None => True
  | Some token => jwt_verify token SECRET_KEY = None
  end.

End WithJwt.

(** [!res.locals.user] *)
Definition no_user (res : response) : bool :=
  match user res with
  | None => true
  | Some _ => false
  end.

(** [!res.locals.user.isAdmin]; only evaluated when there is a user. *)
Definition not_admin (res : response) : bool :=
  match user res with
  | None => true
  | Some u => negb (truthy (prop u "isAdmin"))
  end.

(** [res.locals.user.username !== req.params.username] *)
Definition not_owner (req : request) (res : response) : bool :=
  match user res with
  | None => true
  | Some u => strict_neq (prop u "username") (param req "username")
  end.

Definition must_be_admin : string :=
  "You must be an admin to access this resource".

Definition must_be_admin_or_owner : string :=
  "You must be an admin or the owner to access this resource".

(** ensureLoggedIn *)
Definition ensureLoggedIn (req : request) (res : response) : response * next_call :=
  if no_user res
  then (res, Next (Some (UnauthorizedError None)))
  else (res, Next None).

(** ensureAdmin *)
Definition ensureAdmin (req : request) (res : response) : response * next_call :=
  if no_user res || not_admin res
  then (res, Next (Some (ForbiddenError (Some must_be_admin))))
  else (res, Next None).

(** ensureAdminOrUser *)
Definition ensureAdminOrUser (req : request) (res : response) : response * next_call :=
  if no_user res || (not_admin res && not_owner req res)
  then (res, Next (Some (ForbiddenError (Some must_be_admin_or_owner))))
  else (res, Next None).

(** How the router runs a stack of middleware: [next()] goes on to the
    following one with the response as it now is, [next(err)] skips the
    rest. *)
Fixpoint run (stack : list middleware) (req : request) (res : response)
  : response * next_call :=
  match stack with
  | [] => (res, Next None)
  | m :: rest =>
      match m req res with
      | (res', Next None) => run rest req res'
      | (res', Next (Some err)) => (res', Next (Some err))
      end
  end.

(** The three guards that routes put after authenticateJWT. *)
Inductive guard : Type := EnsureLoggedIn | EnsureAdmin | EnsureAdminOrUser.

Definition guard_middleware (g : guard) : middleware :=
  match g with
  | EnsureLoggedIn => ensureLoggedIn
  | EnsureAdmin => ensureAdmin
  | EnsureAdminOrUser => ensureAdminOrUser
  end.

(** The specification's Identity: the subject (the username) and the
    admin flag. *)
Record Identity : Type := mkIdentity {
  username : string;
  isAdmin : bool
}.

(** A payload carries an identity when its [username] and [isAdmin]
    claims are that string and that boolean (other claims, such as the
    issue time, may be there too). *)
Definition carries (payload : object) (id : Identity) : Prop :=
  payload !! "username" = Some (JStr (username id)) /\
  payload !! "isAdmin" = Some (JBool (isAdmin id)).

(** The identity slot of [res] read as an optional Identity. *)
Definition slot_holds (res : response) (slot : option Identity) : Prop :=
  match slot with
  | None => user res = None
  | Some id => exists payload, user res = Some payload /\ carries payload id
  end.

(** The payload of a token issued for an identity. *)
Definition payload_of (id : Identity) : object :=
  {[ "username" := JStr (username id); "isAdmin" := JBool (isAdmin id) ]}.

(** A request for the route /users/u1 and a response whose slot holds the
    decoded token of the non-admin user u1. *)
Definition req_u1 : request :=
  {| headers := Some ∅; params := {[ "username" := "u1" ]} |}.

Definition res_u1 : response :=
  {| locals := {[ "user" := <[ "iat" := JNum 1700000000 ]>
                              (payload_of {| username := "u1"; isAdmin := false |}) ]} |}.

(** A response fresh from the framework: nothing in [res.locals]. *)
Definition fresh : response := {| locals := ∅ |}.

(** A stand-in for [verify] in examples: it accepts the one token
    "u1.token" under the secret "secret-dev" and throws on anything
    else. *)
Definition example_verify (token secret : string) : option object :=
  if String.eqb token "u1.token" && String.eqb secret "secret-dev"
  then Some (payload_of {| username := "u1"; isAdmin := false |})
  else None.

Definition with_authorization (value : string) : request :=
  {| headers := Some {[ "authorization" := value ]}; params := ∅ |}.

End Auth.
Export Auth.

(* ===================================================================== *)
(** ** models/company: Company.update *)
(* ===================================================================== *)

Module Company.

(** What goes to [db.query]: the statement text and the bind values. *)
Record statement : Type := mkStatement {
  text : string;
  binds : list jsval
}.

(** The value a statement binds to the placeholder [$position]:
    positions count from 1. *)
Definition bound (st : statement) (position : nat) : option jsval :=
  match position with
  | O => None
  | S i => binds st !! i
  end.










(** How a method of Company fails: it throws one of the error classes,
    or [db.query] rejects and its error goes to the caller as it is. *)
Inductive failure (E : Type) : Type :=
| Threw (err : ExpressError)
| QueryRejected (err : E).

Arguments Threw {E} err.
Arguments QueryRejected {E} err.

(** The field-name map that update passes to the helper. *)
Definition jsToSql : gmap string string :=
  {[ "numEmployees" := "num_employees"; "logoUrl" := "logo_url" ]}.

Definition newline : string := String (ascii_of_nat 10) EmptyString.

Fixpoint spaces (n : nat) : string :=
  match n with
  | O => EmptyString
  | S k => String " " (spaces k)
  end.

(** [const handleVarIdx = "$" + (values.length + 1)] *)
Definition handleVarIdx (values : list jsval) : string :=
  "$" +:+ number_to_string (length values + 1).

(** The template literal [querySql], line by line. *)
Definition querySql (setCols handleVarIdx : string) : string :=
  "UPDATE companies " +:+ newline +:+
  spaces 22 +:+ "SET " +:+ setCols +:+ " " +:+ newline +:+
  spaces 22 +:+ "WHERE handle = " +:+ handleVarIdx +:+ " " +:+ newline +:+
  spaces 22 +:+ "RETURNING handle, " +:+ newline +:+
  spaces 32 +:+ "name, " +:+ newline +:+
  spaces 32 +:+ "num_employees AS " +:+ dquote +:+ "numEmployees" +:+ dquote +:+ ", " +:+ newline +:+
  spaces 32 +:+ "description, " +:+ newline +:+
  spaces 32 +:+ "logo_url AS " +:+ dquote +:+ "logoUrl" +:+ dquote.

(** The first half of update: the statement it builds, or the helper's
    error. *)
Definition update_statement (handle : string) (data : patch) : ExpressError + statement :=
  match sqlForPartialUpdate data jsToSql with
  | inl err => inl err
  | inr compiled =>
      inr {| text := querySql (setCols compiled) (handleVarIdx (values compiled));
             binds := values compiled ++ [JStr handle] |}
  end.

(** The argument of findAll, [{ name, minEmployees, maxEmployees }]; a
    property that is not given is [undefined]. *)
Record filter : Type := mkFilter {
  name : jsval;
  minEmployees : jsval;
  maxEmployees : jsval
}.

(** The default argument [{}]. *)
Definition no_filter : filter :=
  {| name := JUndefined; minEmployees := JUndefined; maxEmployees := JUndefined |}.

(** The column list shared by the SELECT and RETURNING clauses. *)
Definition company_columns : string :=
  "handle, name, num_employees AS " +:+ dquote +:+ "numEmployees" +:+ dquote +:+
  ", description, logo_url AS " +:+ dquote +:+ "logoUrl" +:+ dquote.

(** The two arrays that findAll fills. *)
Record conditions : Type := mkConditions {
  whereExpressions : list string;
  queryValues : list jsval
}.

(** [queryValues.push(value)] followed by
    [whereExpressions.push(`<condition>$${queryValues.length}`)]. *)
Definition push_condition (condition : string) (value : jsval) (c : conditions)
  : conditions :=
  let pushed := (queryValues c ++ [value])%list in
  {| whereExpressions :=
       (whereExpressions c ++ [condition +:+ "$" +:+ number_to_string (length pushed)])%list;
     queryValues := pushed |}.

Section WithNumbers.

(** Number::toString, see [to_string]. *)
Variable Number_toString : Z -> string.

(** The conditions findAll has collected after its three tests. *)
Definition findAll_conditions (f : filter) : conditions :=
  let c0 := {| whereExpressions := []; queryValues := [] |} in
  let c1 := if strict_neq (minEmployees f) JUndefined
            then push_condition "num_employees >= " (minEmployees f) c0 else c0 in
  let c2 := if strict_neq (maxEmployees f) JUndefined
            then push_condition "num_employees <= " (maxEmployees f) c1 else c1 in
  if truthy (name f)
  then push_condition "name ILIKE "
         (JStr ("%" +:+ to_string Number_toString (name f) +:+ "%")) c2
  else c2.

(** The query findAll hands to [db.query]. *)
Definition findAll_statement (f : filter) : statement :=
  let c := findAll_conditions f in
  let query := "SELECT " +:+ company_columns +:+ " FROM companies" in
  let query := if (0 <? length (whereExpressions c))%nat
               then query +:+ " WHERE " +:+ join " AND " (whereExpressions c)
               else query in
  let query := query +:+ " ORDER BY name" in
  {| text := query; binds := queryValues c |}.

(** The statements of get, of create and of remove. *)
Definition get_sql : string :=
  "SELECT " +:+ company_columns +:+ newline +:+
  spaces 7 +:+ "FROM companies" +:+ newline +:+
  spaces 7 +:+ "WHERE handle = $1".

Definition duplicate_check_sql : string :=
  "SELECT handle" +:+ newline +:+
  spaces 7 +:+ "FROM companies" +:+ newline +:+
  spaces 7 +:+ "WHERE handle = $1".

Definition insert_sql : string :=
  "INSERT INTO companies" +:+ newline +:+
  spaces 7 +:+ "(handle, name, num_employees, description, logo_url)" +:+ newline +:+
  spaces 7 +:+ "VALUES ($1, $2, $3, $4, $5)" +:+ newline +:+
  spaces 7 +:+ "RETURNING " +:+ company_columns.

Definition remove_sql : string :=
  "DELETE FROM companies" +:+ newline +:+
  spaces 7 +:+ "WHERE handle = $1" +:+ newline +:+
  spaces 7 +:+ "RETURNING handle".

Section WithDb.

(** [db.query]: the rows that come back for a statement, or the error
    the promise rejects with (a constraint violated, a statement the
    database refuses, a lost connection). *)
Variable db_error : Type.
Variable db_query : string -> list jsval -> db_error + list object.

(** Company.update: no [catch] in the method, so a rejected query
    rejects the method. *)
Definition update (handle : string) (data : patch) : failure db_error + object :=
  match update_statement handle data with
  | inl err => inl (Threw err)
  | inr st =>
      match db_query (text st) (binds st) with
      | inl err => inl (QueryRejected err)
      | inr (company :: _) => inr company
      | inr [] => inl (Threw (NotFoundError (Some ("No company: " +:+ handle))))
      end
  end.

(** Company.findAll: the rows of the filtered query. *)
Definition findAll (f : filter) : db_error + list object :=
  let st := findAll_statement f in
  db_query (text st) (binds st).

(** Company.get *)
Definition get (handle : string) : failure db_error + object :=
  match db_query get_sql [JStr handle] with
  | inl err => inl (QueryRejected err)
  | inr (company :: _) => inr company
  | inr [] => inl (Threw (NotFoundError (Some ("No company: " +:+ handle))))
  end.

(** Company.create: the argument is read by its five properties; the
    result is the first row of the INSERT, [None] when there is none. *)
Definition create (data : object) : failure db_error + option object :=
  match db_query duplicate_check_sql [prop data "handle"] with
  | inl err => inl (QueryRejected err)
  | inr (_ :: _) =>
      inl (Threw (BadRequestError
                    (Some ("Duplicate company: " +:+
                           to_string Number_toString (prop data "handle")))))
  | inr [] =>
      match db_query insert_sql
              [prop data "handle"; prop data "name"; prop data "numEmployees";
               prop data "description"; prop data "logoUrl"] with
      | inl err => inl (QueryRejected err)
      | inr rows => inr (head rows)
      end
  end.

(** Company.remove: returns [undefined]. *)
Definition remove (handle : string) : failure db_error + unit :=
  match db_query remove_sql [JStr handle] with
  | inl err => inl (QueryRejected err)
  | inr (_ :: _) => inr tt
  | inr [] => inl (Threw (NotFoundError (Some ("No company: " +:+ handle))))
  end.

End WithDb.

End WithNumbers.

End Company.

(* ===================================================================== *)
(** ** routes/jobs and routes/users: guard stacks and two handlers *)
(* ===================================================================== *)

Module Routes.

(** The guards in front of the admin-only routes: POST /jobs,
    PATCH /jobs/:id and DELETE /jobs/:id, POST /users and GET /users. *)
Definition admin_only : list middleware := [ensureLoggedIn; ensureAdmin].

(** The guards in front of GET, PATCH and DELETE /users/:username. *)
Definition admin_or_owner : list middleware := [ensureLoggedIn; ensureAdminOrUser].

(** The guard in front of POST /users/:username/jobs/:id. *)
Definition logged_in : list middleware := [ensureLoggedIn].

(** A route: the handler runs when every guard has called [next()], and
    an error from a guard goes to the error handler instead. *)
Inductive outcome (A : Type) : Type :=
| Rejected (err : ExpressError)
| Handled (reply : A).

Arguments Rejected {A} err.
Arguments Handled {A} reply.

Definition route {A : Type} (guards : list middleware)
    (handler : request -> response -> A) (req : request) (res : response) : outcome A :=
  match run guards req res with
  | (res', Next None) => Handled (handler req res')
  | (_, Next (Some err)) => Rejected err
  end.

(** What a handler's [catch] can hand to [next]: one of the error
    classes, a plain [new Error(message)], or a run-time error of the
    language. *)
Inductive thrown : Type :=
| Raised (err : ExpressError)
| PlainError (message : string)
| ReferenceError (identifier : string)
| TypeError (reading : string).

(** How a handler ends: a JSON reply with its status, or [next(err)]. *)
Inductive reply (B : Type) : Type :=
| Json (status : nat) (body : B)
| NextError (err : thrown).

Arguments Json {B} status body.
Arguments NextError {B} err.

(** The filter object of GET /jobs: per field, the operator and its
    operand. *)
Abbreviation where_clause := (gmap string (string * jsval)).

(** [Op.<member>] in routes/jobs.js: the file binds express, Job,
    ensureLoggedIn, ensureAdmin and router, and no [Op], so evaluating
    the name throws. *)
Definition Op (member : string) : thrown + string := inl (ReferenceError "Op").

(** The filter that the handler of GET /jobs builds from the query
    string; [query !! k] is [None] for a parameter that is not given. *)
Definition jobs_filter (query : gmap string string) : thrown + where_clause :=
  let title := query !! "title" in
  let minSalary := query !! "minSalary" in
  let hasEquity := query !! "hasEquity" in
  let filter : where_clause := ∅ in
  match
    (if truthy (from_option JStr JUndefined title)
     then match Op "iLike" with
          | inl err => inl err
          | inr iLike =>
              inr (<[ "title" := (iLike, JStr ("%" +:+ default "" title +:+ "%")) ]> filter)
          end
     else inr filter)
  with
  | inl err => inl err
  | inr filter =>
      match
        (if truthy (from_option JStr JUndefined minSalary)
         then match Op "gte" with
              | inl err => inl err
              | inr gte =>
                  inr (<[ "salary" := (gte, from_option JStr JUndefined minSalary) ]> filter)
              end
         else inr filter)
      with
      | inl err => inl err
      | inr filter =>
          match hasEquity with
          | Some flag =>
              match (if String.eqb flag "true" then Op "gt" else Op "eq") with
              | inl err => inl err
              | inr op => inr (<[ "equity" := (op, JNum 0) ]> filter)
              end
          | None => inr filter
          end
      end
  end.

Section Jobs.

(** [Job.findAll({ where })]: the jobs, or the error it rejects with. *)
Variable Job_findAll : where_clause -> thrown + list object.

(** The handler of GET /jobs. *)
Definition get_jobs (query : gmap string string) : reply (list object) :=
  match jobs_filter query with
  | inl err => NextError err
  | inr filter =>
      match Job_findAll filter with
      | inl err => NextError err
      | inr jobs => Json 200 jobs
      end
  end.

End Jobs.

Section Users.

(** [User.applyForJob(username, jobId)]: the applied job id, or the error
    it rejects with. *)
Variable User_applyForJob : jsval -> jsval -> thrown + jsval.

(** The handler of POST /users/:username/jobs/:id. It reads [req.user],
    given here beside the request: [None] when the property is not
    set. *)
Definition apply_for_job (req_user : option object) (req : request) (res : response)
  : reply (list (string * jsval)) :=
  let username := param req "username" in
  let jobId := param req "id" in
  match req_user with
  | None => NextError (TypeError "isAdmin")
  | Some u =>
      if negb (truthy (prop u "isAdmin")) && strict_neq (prop u "username") username
      then Json 403 [("error", JStr "Unauthorized")]
      else
        match User_applyForJob username jobId with
        | inl err => NextError err
        | inr appliedJobId => Json 200 [("applied", appliedJobId)]
        end
  end.

End Users.

End Routes.


(* ===================================================================== *)
(** ** Facts about the JavaScript helpers *)
(* ===================================================================== *)

Section JsFacts.

Lemma truthy_JBool (b : bool) : truthy (JBool b) = b.
Proof. reflexivity. Qed.

Lemma strict_eq_true (a b : jsval) : strict_eq a b = true <-> a = b.
Proof. unfold strict_eq. apply bool_decide_eq_true. Qed.

Lemma strict_neq_false (a b : jsval) : strict_neq a b = false <-> a = b.
Proof.
  unfold strict_neq. rewrite negb_false_iff. apply strict_eq_true.
Qed.

Lemma strict_neq_JStr (s t : string) :
  strict_neq (JStr s) (JStr t) = false <-> s = t.
Proof.
  rewrite strict_neq_false. split; [by intros [= ->] | by intros ->].
Qed.

Lemma append_cons (a : ascii) (s t : string) : String a s +:+ t = String a (s +:+ t).
Proof. reflexivity. Qed.

Lemma append_assoc (s t u : string) : (s +:+ t) +:+ u = s +:+ (t +:+ u).
Proof.
  induction s as [|a s IH]; [reflexivity|].
  by rewrite !append_cons, IH.
Qed.


Example number_to_string_examples :
  number_to_string 1 = "1" /\ number_to_string 10 = "10" /\ number_to_string 123 = "123".
Proof. repeat split. Qed.

Example strip_bearer_examples :
  strip_bearer "Bearer abc" = "abc" /\
  strip_bearer "bearer abc" = "abc" /\
  strip_bearer "BEARER abc" = "BEARER abc" /\
  strip_bearer "Bearerabc" = "Bearerabc".
Proof. repeat split. Qed.

Example trim_examples :
  trim "  a b  " = "a b" /\ trim "   " = EmptyString /\ trim "abc" = "abc".
Proof. repeat split. Qed.

End JsFacts.

(* ===================================================================== *)
(** ** Facts about sqlForPartialUpdate *)
(* ===================================================================== *)

Section SqlFacts.

Implicit Types (jsToSql : gmap string string) (P : patch).

Lemma fragments_length jsToSql position keys :
  length (fragments jsToSql position keys) = length keys.
Proof.
  revert position. induction keys as [|key rest IH]; intros position; simpl.
  - reflexivity.
  - by rewrite IH.
Qed.

(** The fragment at index [i] carries the position [position + i]. *)
Lemma fragments_lookup jsToSql position keys i key :
  keys !! i = Some key ->
  fragments jsToSql position keys !! i = Some (fragment jsToSql key (position + i)).
Proof.
  revert position i. induction keys as [|k rest IH]; intros position i Hi.
  - by rewrite lookup_nil in Hi.
  - destruct i as [|i]; simpl in *.
    + injection Hi as ->. by rewrite Nat.add_0_r.
    + rewrite (IH (S position) i Hi). f_equal. f_equal. lia.
Qed.

(** Only the map's entries at the keys of the patch matter. *)
Lemma fragments_ext jsToSql jsToSql' position keys :
  (forall key, key ∈ keys -> jsToSql !! key = jsToSql' !! key) ->
  fragments jsToSql position keys = fragments jsToSql' position keys.
Proof.
  revert position. induction keys as [|k rest IH]; intros position Hagree; simpl.
  - reflexivity.
  - f_equal.
    + unfold fragment, column. rewrite (Hagree k); [reflexivity | set_solver].
    + apply IH. intros key Hkey. apply Hagree. set_solver.
Qed.

Lemma sqlForPartialUpdate_ext P jsToSql jsToSql' :
  (forall key, key ∈ P.*1 -> jsToSql !! key = jsToSql' !! key) ->
  sqlForPartialUpdate P jsToSql = sqlForPartialUpdate P jsToSql'.
Proof.
  intros Hagree. destruct P as [|entry rest]; [reflexivity|].
  unfold sqlForPartialUpdate. by rewrite (fragments_ext _ _ _ _ Hagree).
Qed.

(** A patch with an entry compiles, to the joined fragments and the
    values in order. *)
Lemma sqlForPartialUpdate_nonempty P jsToSql :
  P <> [] ->
  sqlForPartialUpdate P jsToSql =
    inr {| setCols := join ", " (fragments jsToSql 1 (P.*1)); values := P.*2 |}.
Proof. intros HP. by destruct P. Qed.

Lemma patch_lookup_key P i key v :
  P !! i = Some (key, v) -> P.*1 !! i = Some key.
Proof. intros Hi. by rewrite list_lookup_fmap, Hi. Qed.

Lemma patch_lookup_value P i key v :
  P !! i = Some (key, v) -> P.*2 !! i = Some v.
Proof. intros Hi. by rewrite list_lookup_fmap, Hi. Qed.

(** C2: for every field-name map, the empty one included, compiling the
    empty patch fails with a BadRequest error whose message is "No data";
    it never returns a compiled patch. *)
Theorem sqlForPartialUpdate_empty_patch :
  forall jsToSql,
    sqlForPartialUpdate [] jsToSql = inl (BadRequestError (Some "No data")) /\
    (exists err,
        sqlForPartialUpdate [] jsToSql = inl err /\
        kind_of err = BadRequest /\ message_of err = Some "No data") /\
    (forall compiled, sqlForPartialUpdate [] jsToSql <> inr compiled) /\
    sqlForPartialUpdate [] ∅ = inl (BadRequestError (Some "No data")).
Proof.
  intros jsToSql. split; [reflexivity|]. split.
  - exists (BadRequestError (Some "No data")). repeat split.
  - split; [|reflexivity]. intros compiled Hc. discriminate Hc.
Qed.

(** C3: a non-empty patch P compiles; the values are the patch's values,
    untranslated and in order, as many as P has entries; setCols is the
    fragments joined by a comma and a space, one fragment per key in the
    same order, and the fragment of the key at index i (from 0) carries
    the placeholder $(i+1), so the placeholders are $1, ..., $|P|. *)
Theorem sqlForPartialUpdate_values_and_placeholders :
  forall P jsToSql,
    P <> [] ->
    exists compiled frags,
      sqlForPartialUpdate P jsToSql = inr compiled /\
      length (values compiled) = length P /\
      values compiled = P.*2 /\
      setCols compiled = join ", " frags /\
      length frags = length P /\
      forall i key v,
        P !! i = Some (key, v) ->
        values compiled !! i = Some v /\
        frags !! i =
          Some (dquote +:+ column jsToSql key +:+ dquote +:+ "=$" +:+ number_to_string (i + 1)).
Proof.
  intros P jsToSql HP.
  exists {| setCols := join ", " (fragments jsToSql 1 (P.*1)); values := P.*2 |}.
  exists (fragments jsToSql 1 (P.*1)).
  rewrite (sqlForPartialUpdate_nonempty _ _ HP). simpl.
  repeat split.
  - by rewrite length_fmap.
  - by rewrite fragments_length, length_fmap.
  - by eapply patch_lookup_value.
  - rewrite (fragments_lookup _ _ _ _ key); [|by eapply patch_lookup_key].
    unfold fragment. do 6 f_equal. lia.
Qed.

Lemma sqlForPartialUpdate_values_and_placeholders_witness :
  exists compiled frags,
    sqlForPartialUpdate [("name", JStr "Acme"); ("numEmployees", JNum 7)] ∅ = inr compiled /\
    length (values compiled) = 2 /\
    values compiled = [JStr "Acme"; JNum 7] /\
    setCols compiled = join ", " frags /\
    length frags = 2 /\
    forall i key v,
      [("name", JStr "Acme"); ("numEmployees", JNum 7)] !! i = Some (key, v) ->
      values compiled !! i = Some v /\
      frags !! i =
        Some (dquote +:+ column ∅ key +:+ dquote +:+ "=$" +:+ number_to_string (i + 1)).
Proof.
  apply (sqlForPartialUpdate_values_and_placeholders
           [("name", JStr "Acme"); ("numEmployees", JNum 7)] ∅).
  discriminate.
Defined.

(** sql.test.js, "works: partial update". *)
Example sqlForPartialUpdate_test_partial_update :
  sqlForPartialUpdate aliya {[ "firstName" := "first_name"; "age" := "age" ]} =
    inr {| setCols := aliya_translated; values := [JStr "Aliya"; JNum 32] |}.
Proof. vm_compute. reflexivity. Qed.

(** C4: in the compiled setCols of a non-empty patch, the column emitted
    for the key at index i is the map's entry for that key when the map
    has one, and the key itself when it has none; and the two concrete
    cases of the specification evaluate as stated. *)
Theorem sqlForPartialUpdate_column_names :
  forall P jsToSql,
    P <> [] ->
    (exists compiled frags,
        sqlForPartialUpdate P jsToSql = inr compiled /\
        setCols compiled = join ", " frags /\
        forall i key v,
          P !! i = Some (key, v) ->
          (forall col, jsToSql !! key = Some col ->
             frags !! i = Some (dquote +:+ col +:+ dquote +:+ "=$" +:+ number_to_string (i + 1))) /\
          (jsToSql !! key = None ->
             frags !! i = Some (dquote +:+ key +:+ dquote +:+ "=$" +:+ number_to_string (i + 1)))) /\
    sqlForPartialUpdate aliya {[ "firstName" := "first_name" ]} =
      inr {| setCols := aliya_translated; values := [JStr "Aliya"; JNum 32] |} /\
    sqlForPartialUpdate aliya ∅ =
      inr {| setCols := aliya_untranslated; values := [JStr "Aliya"; JNum 32] |}.
Proof.
  intros P jsToSql HP. split; [|split; vm_compute; reflexivity].
  exists {| setCols := join ", " (fragments jsToSql 1 (P.*1)); values := P.*2 |}.
  exists (fragments jsToSql 1 (P.*1)).
  rewrite (sqlForPartialUpdate_nonempty _ _ HP). simpl.
  split; [reflexivity|]. split; [reflexivity|].
  intros i key v Hi.
  pose proof (fragments_lookup jsToSql 1 _ _ _ (patch_lookup_key _ _ _ _ Hi)) as Hfrag.
  replace (1 + i) with (i + 1) in Hfrag by lia.
  split.
  - intros col Hcol. rewrite Hfrag. unfold fragment, column. by rewrite Hcol.
  - intros Hnone. rewrite Hfrag. unfold fragment, column. by rewrite Hnone.
Qed.

Lemma sqlForPartialUpdate_column_names_witness :
  (exists compiled frags,
      sqlForPartialUpdate [("logoUrl", JNull); ("name", JStr "Acme")]
        {[ "logoUrl" := "logo_url" ]} = inr compiled /\
      setCols compiled = join ", " frags /\
      forall i key v,
        [("logoUrl", JNull); ("name", JStr "Acme")] !! i = Some (key, v) ->
        (forall col, ({[ "logoUrl" := "logo_url" ]} : gmap string string) !! key = Some col ->
           frags !! i = Some (dquote +:+ col +:+ dquote +:+ "=$" +:+ number_to_string (i + 1))) /\
        (({[ "logoUrl" := "logo_url" ]} : gmap string string) !! key = None ->
           frags !! i = Some (dquote +:+ key +:+ dquote +:+ "=$" +:+ number_to_string (i + 1)))) /\
  sqlForPartialUpdate aliya {[ "firstName" := "first_name" ]} =
    inr {| setCols := aliya_translated; values := [JStr "Aliya"; JNum 32] |} /\
  sqlForPartialUpdate aliya ∅ =
    inr {| setCols := aliya_untranslated; values := [JStr "Aliya"; JNum 32] |}.
Proof.
  apply (sqlForPartialUpdate_column_names
           [("logoUrl", JNull); ("name", JStr "Acme")] {[ "logoUrl" := "logo_url" ]}).
  discriminate.
Defined.

End SqlFacts.

(* ===================================================================== *)
(** ** Facts about the middleware *)
(* ===================================================================== *)

Section GuardFacts.

Implicit Types (req : request) (res : response) (id : Identity).

Lemma carries_isAdmin (payload : object) id :
  carries payload id -> truthy (prop payload "isAdmin") = isAdmin id.
Proof. intros [_ Hadmin]. unfold prop. by rewrite Hadmin. Qed.

Lemma carries_username (payload : object) id :
  carries payload id -> prop payload "username" = JStr (username id).
Proof. intros [Hname _]. unfold prop. by rewrite Hname. Qed.

Lemma payload_of_carries id : carries (payload_of id) id.
Proof.
  unfold carries, payload_of. split.
  - apply lookup_insert_eq.
  - rewrite lookup_insert_ne by discriminate. apply lookup_singleton_eq.
Qed.

Lemma param_present req (name value : string) :
  params req !! name = Some value -> param req name = JStr value.
Proof. intros Hp. unfold param. by rewrite Hp. Qed.

(** ensureLoggedIn, by cases on the slot. *)
Lemma ensureLoggedIn_cases req res :
  ensureLoggedIn req res =
    (res, Next (match user res with
                | None => Some (UnauthorizedError None)
                | Some _ => None
                end)).
Proof. unfold ensureLoggedIn, no_user. by destruct (user res). Qed.

(** ensureAdmin lets through exactly a user whose [isAdmin] is truthy. *)
Lemma ensureAdmin_continues req res :
  snd (ensureAdmin req res) = Next None <->
  exists payload, user res = Some payload /\ truthy (prop payload "isAdmin") = true.
Proof.
  unfold ensureAdmin, no_user, not_admin.
  destruct (user res) as [payload|]; simpl.
  - destruct (truthy (prop payload "isAdmin")) eqn:Hadmin; simpl; split.
    + intros _. exists payload. by split.
    + reflexivity.
    + discriminate.
    + intros (payload' & [= <-] & Htrue). congruence.
  - split; [discriminate | intros (payload & Hnone & _); discriminate Hnone].
Qed.

Lemma ensureAdmin_outcomes req res :
  snd (ensureAdmin req res) = Next None \/
  snd (ensureAdmin req res) = Next (Some (ForbiddenError (Some must_be_admin))).
Proof. unfold ensureAdmin. destruct (no_user res || not_admin res); auto. Qed.

(** ensureAdminOrUser lets through exactly a user whose [isAdmin] is
    truthy or whose [username] is strictly equal to the route's. *)
Lemma ensureAdminOrUser_continues req res :
  snd (ensureAdminOrUser req res) = Next None <->
  exists payload,
    user res = Some payload /\
    (truthy (prop payload "isAdmin") = true \/
     prop payload "username" = param req "username").
Proof.
  unfold ensureAdminOrUser, no_user, not_admin, not_owner.
  destruct (user res) as [payload|]; simpl.
  - destruct (truthy (prop payload "isAdmin")) eqn:Hadmin; simpl.
    + split; [intros _; exists payload; auto | reflexivity].
    + destruct (strict_neq (prop payload "username") (param req "username")) eqn:Hneq.
      * split; [discriminate|].
        intros (payload' & [= <-] & [Htrue | Hsame]); [congruence|].
        apply strict_neq_false in Hsame. congruence.
      * split; [|reflexivity]. intros _. exists payload.
        split; [reflexivity|]. right. by apply strict_neq_false.
  - split; [discriminate | intros (payload & Hnone & _); discriminate Hnone].
Qed.

Lemma ensureAdminOrUser_outcomes req res :
  snd (ensureAdminOrUser req res) = Next None \/
  snd (ensureAdminOrUser req res) =
    Next (Some (ForbiddenError (Some must_be_admin_or_owner))).
Proof.
  unfold ensureAdminOrUser.
  destruct (no_user res || not_admin res && not_owner req res); auto.
Qed.

(** None of the three guards touches the response. *)
Lemma guard_frame (g : guard) req res : fst (guard_middleware g req res) = res.
Proof.
  destruct g; simpl.
  - unfold ensureLoggedIn. by destruct (no_user res).
  - unfold ensureAdmin. by destruct (no_user res || not_admin res).
  - unfold ensureAdminOrUser.
    by destruct (no_user res || not_admin res && not_owner req res).
Qed.

Lemma run_guards_frame (guards : list guard) req res :
  fst (run (guard_middleware <$> guards) req res) = res.
Proof.
  induction guards as [|g rest IH]; simpl; [reflexivity|].
  pose proof (guard_frame g req res) as Hg.
  destruct (guard_middleware g req res) as [res' [[err|]]]; simpl in *; subst res'.
  - reflexivity.
  - exact IH.
Qed.

(** What a slot that holds an identity says about the raw payload. *)
Lemma slot_holds_Some res id :
  slot_holds res (Some id) ->
  exists payload, user res = Some payload /\
    truthy (prop payload "isAdmin") = isAdmin id /\
    prop payload "username" = JStr (username id).
Proof.
  intros (payload & Huser & Hcarries). exists payload.
  split; [exact Huser|]. split.
  - by apply carries_isAdmin.
  - by apply carries_username.
Qed.

(** C1: with the slot read as an optional identity and the route's
    username parameter [target], ensureAdminOrUser continues exactly when
    the slot holds an identity that is an admin or whose username is
    [target] (equality of strings, character by character); in every
    other case it halts with the Forbidden error; an admin continues
    whatever [target] is. *)
Theorem ensureAdminOrUser_admin_or_subject :
  forall req res (slot : option Identity) (target : string),
    slot_holds res slot ->
    params req !! "username" = Some target ->
    (snd (ensureAdminOrUser req res) = Next None <->
       exists id, slot = Some id /\ (isAdmin id = true \/ username id = target)) /\
    (~ (exists id, slot = Some id /\ (isAdmin id = true \/ username id = target)) ->
       snd (ensureAdminOrUser req res) =
         Next (Some (ForbiddenError (Some must_be_admin_or_owner))) /\
       kind_of (ForbiddenError (Some must_be_admin_or_owner)) = Forbidden) /\
    (forall id, slot = Some id -> isAdmin id = true ->
       snd (ensureAdminOrUser req res) = Next None).
Proof.
  intros req res slot target Hslot Htarget.
  assert (Hiff : snd (ensureAdminOrUser req res) = Next None <->
            exists id, slot = Some id /\ (isAdmin id = true \/ username id = target)).
  { rewrite ensureAdminOrUser_continues, (param_present _ _ _ Htarget).
    destruct slot as [id|]; simpl in Hslot.
    - destruct (slot_holds_Some _ _ Hslot) as (payload & Huser & Hadmin & Hname).
      split.
      + intros (payload' & Huser' & Hcases). exists id. split; [reflexivity|].
        assert (payload' = payload) as -> by congruence.
        destruct Hcases as [Ha | Hn]; [left; congruence | right; congruence].
      + intros (id' & [= <-] & Hcases). exists payload. split; [exact Huser|].
        destruct Hcases as [Ha | Hn]; [left; congruence | right; congruence].
    - split.
      + intros (payload & Huser & _). congruence.
      + intros (id & Hid & _). discriminate Hid. }
  split; [exact Hiff|]. split.
  - intros Hnot. split; [|reflexivity].
    destruct (ensureAdminOrUser_outcomes req res) as [Hgo | Hhalt]; [|exact Hhalt].
    exfalso. apply Hnot. by apply Hiff.
  - intros id Hid Hadmin. apply Hiff. exists id. auto.
Qed.

Lemma res_u1_slot : slot_holds res_u1 (Some {| username := "u1"; isAdmin := false |}).
Proof.
  eexists. split; [reflexivity|]. split; reflexivity.
Defined.

Lemma ensureAdminOrUser_admin_or_subject_witness :
  (snd (ensureAdminOrUser req_u1 res_u1) = Next None <->
     exists id, Some {| username := "u1"; isAdmin := false |} = Some id /\
                (isAdmin id = true \/ username id = "u1")) /\
  (~ (exists id, Some {| username := "u1"; isAdmin := false |} = Some id /\
                 (isAdmin id = true \/ username id = "u1")) ->
     snd (ensureAdminOrUser req_u1 res_u1) =
       Next (Some (ForbiddenError (Some must_be_admin_or_owner))) /\
     kind_of (ForbiddenError (Some must_be_admin_or_owner)) = Forbidden) /\
  (forall id, Some {| username := "u1"; isAdmin := false |} = Some id -> isAdmin id = true ->
     snd (ensureAdminOrUser req_u1 res_u1) = Next None).
Proof.
  apply (ensureAdminOrUser_admin_or_subject req_u1 res_u1
           (Some {| username := "u1"; isAdmin := false |}) "u1").
  - exact res_u1_slot.
  - reflexivity.
Defined.

(** The comparison of usernames is case-sensitive: u1 may not act on the
    route of U1. *)
Example ensureAdminOrUser_case_sensitive :
  snd (ensureAdminOrUser
         {| headers := Some ∅; params := {[ "username" := "U1" ]} |} res_u1) =
    Next (Some (ForbiddenError (Some must_be_admin_or_owner))).
Proof. vm_compute. reflexivity. Qed.

(** C7: with the slot read as an optional identity, ensureAdmin halts
    with the Forbidden error, whose message says that one must be an
    admin, exactly when the slot is empty or the identity is not an
    admin, and continues otherwise; run on its own, with no
    ensureLoggedIn before it, it still halts on an empty slot. *)
Theorem ensureAdmin_forbidden_iff_not_admin :
  forall req res (slot : option Identity),
    slot_holds res slot ->
    (snd (ensureAdmin req res) = Next (Some (ForbiddenError (Some must_be_admin))) <->
       slot = None \/ exists id, slot = Some id /\ isAdmin id = false) /\
    (snd (ensureAdmin req res) = Next None <->
       exists id, slot = Some id /\ isAdmin id = true) /\
    (forall err, snd (ensureAdmin req res) = Next (Some err) ->
       kind_of err = Forbidden /\
       exists reason, message_of err = Some reason /\
                      contains "must be an admin" reason = true) /\
    (slot = None ->
       run [ensureAdmin] req res = (res, Next (Some (ForbiddenError (Some must_be_admin))))).
Proof.
  intros req res slot Hslot.
  assert (Hgo : snd (ensureAdmin req res) = Next None <->
            exists id, slot = Some id /\ isAdmin id = true).
  { rewrite ensureAdmin_continues. destruct slot as [id|]; simpl in Hslot.
    - destruct (slot_holds_Some _ _ Hslot) as (payload & Huser & Hadmin & _).
      split.
      + intros (payload' & Huser' & Htrue). exists id. split; [reflexivity|].
        assert (payload' = payload) as -> by congruence. congruence.
      + intros (id' & [= <-] & Htrue). exists payload. split; [exact Huser|]. congruence.
    - split.
      + intros (payload & Huser & _). congruence.
      + intros (id & Hid & _). discriminate Hid. }
  split; [|split; [exact Hgo|]].
  - split.
    + intros Hhalt. destruct slot as [id|]; [right | by left].
      exists id. split; [reflexivity|].
      destruct (isAdmin id) eqn:Hadmin; [|reflexivity].
      assert (Hnext : snd (ensureAdmin req res) = Next None) by (apply Hgo; eauto).
      rewrite Hhalt in Hnext. discriminate Hnext.
    + intros Hcases.
      destruct (ensureAdmin_outcomes req res) as [Hnext | Hhalt]; [|exact Hhalt].
      apply Hgo in Hnext as (id & Hid & Hadmin).
      destruct Hcases as [Hnone | (id' & Hid' & Hfalse)]; congruence.
  - split.
    + intros err Herr.
      destruct (ensureAdmin_outcomes req res) as [Hnext | Hhalt]; [congruence|].
      rewrite Hhalt in Herr. injection Herr as <-.
      split; [reflexivity|]. exists must_be_admin. split; [reflexivity|].
      vm_compute. reflexivity.
    + intros ->. simpl in Hslot. unfold run, ensureAdmin, no_user. by rewrite Hslot.
Qed.

Lemma ensureAdmin_forbidden_iff_not_admin_witness :
  (snd (ensureAdmin req_u1 res_u1) = Next (Some (ForbiddenError (Some must_be_admin))) <->
     Some {| username := "u1"; isAdmin := false |} = None \/
     exists id, Some {| username := "u1"; isAdmin := false |} = Some id /\ isAdmin id = false) /\
  (snd (ensureAdmin req_u1 res_u1) = Next None <->
     exists id, Some {| username := "u1"; isAdmin := false |} = Some id /\ isAdmin id = true) /\
  (forall err, snd (ensureAdmin req_u1 res_u1) = Next (Some err) ->
     kind_of err = Forbidden /\
     exists reason, message_of err = Some reason /\
                    contains "must be an admin" reason = true) /\
  (Some {| username := "u1"; isAdmin := false |} = None ->
     run [ensureAdmin] req_u1 res_u1 =
       (res_u1, Next (Some (ForbiddenError (Some must_be_admin))))).
Proof.
  apply (ensureAdmin_forbidden_iff_not_admin req_u1 res_u1
           (Some {| username := "u1"; isAdmin := false |})).
  exact res_u1_slot.
Defined.

(** C10: none of ensureLoggedIn, ensureAdmin and ensureAdminOrUser
    changes the response, whether it continues or halts; so after
    authenticateJWT and any sequence of these guards the identity slot
    holds what authenticateJWT left in it. *)
Theorem guards_leave_identity_slot :
  forall jwt_verify SECRET_KEY (guards : list guard) req res,
    (forall g res', fst (guard_middleware g req res') = res') /\
    fst (run (guard_middleware <$> guards) req res) = res /\
    user (fst (run (authenticateJWT jwt_verify SECRET_KEY :: (guard_middleware <$> guards))
                 req res)) =
      user (fst (authenticateJWT jwt_verify SECRET_KEY req res)).
Proof.
  intros jwt_verify SECRET_KEY guards req res. split; [|split].
  - intros g res'. apply guard_frame.
  - apply run_guards_frame.
  - cbn [run].
    destruct (authenticateJWT jwt_verify SECRET_KEY req res) as [res1 [[err|]]]; simpl.
    + reflexivity.
    + by rewrite run_guards_frame.
Qed.

End GuardFacts.

Section AuthenticateFacts.

Variable jwt_verify : string -> string -> option object.
Variable SECRET_KEY : string.

Implicit Types (req : request) (res : response).

Local Abbreviation authenticate := (authenticateJWT jwt_verify SECRET_KEY).
Local Abbreviation rejected := (Auth.rejected jwt_verify SECRET_KEY).

Lemma authenticateJWT_calls_next req res : snd (authenticate req res) = Next None.
Proof.
  unfold authenticateJWT.
  destruct (bearer_token req) as [token|]; [|reflexivity].
  by destruct (jwt_verify token SECRET_KEY).
Qed.

Lemma authenticateJWT_rejected req res :
  rejected req -> authenticate req res = (res, Next None).
Proof.
  unfold Auth.rejected, authenticateJWT.
  destruct (bearer_token req) as [token|]; [|reflexivity].
  by intros ->.
Qed.

(** A token that verifies ends up, decoded, in the slot. *)
Lemma authenticateJWT_stores_payload req res token payload :
  bearer_token req = Some token ->
  jwt_verify token SECRET_KEY = Some payload ->
  user (fst (authenticate req res)) = Some payload.
Proof.
  intros Htoken Hverify. unfold authenticateJWT. rewrite Htoken, Hverify.
  simpl. unfold user, set_user. simpl. apply lookup_insert_eq.
Qed.

Lemma bearer_token_no_header req : authHeader req = None -> bearer_token req = None.
Proof. intros Hnone. unfold bearer_token. by rewrite Hnone. Qed.

(** C5: authenticateJWT always calls [next()] with no error. When the
    header is absent, and when [verify] fails on the token, it leaves the
    response as it was, so a slot that was empty stays empty; the two
    cases give the very same result, so nothing later can tell them
    apart. *)
Theorem authenticateJWT_never_halts :
  forall req res,
    snd (authenticate req res) = Next None /\
    (authHeader req = None -> authenticate req res = (res, Next None)) /\
    (forall token, bearer_token req = Some token -> jwt_verify token SECRET_KEY = None ->
       authenticate req res = (res, Next None)) /\
    (rejected req -> user res = None -> user (fst (authenticate req res)) = None) /\
    (forall req', rejected req -> rejected req' ->
       authenticate req res = authenticate req' res).
Proof.
  intros req res. split; [apply authenticateJWT_calls_next|]. split; [|split; [|split]].
  - intros Hnone. apply authenticateJWT_rejected.
    unfold Auth.rejected. by rewrite (bearer_token_no_header _ Hnone).
  - intros token Htoken Hfail. apply authenticateJWT_rejected.
    unfold Auth.rejected. by rewrite Htoken.
  - intros Hrej Hempty. by rewrite (authenticateJWT_rejected _ _ Hrej).
  - intros req' Hrej Hrej'.
    by rewrite (authenticateJWT_rejected _ _ Hrej), (authenticateJWT_rejected _ _ Hrej').
Qed.

(** C6: ensureLoggedIn halts with the Unauthorized error exactly when the
    identity slot is empty, and continues with no error when it holds an
    identity. A request without a credential that only goes through
    authenticateJWT proceeds with no error; sent on to ensureLoggedIn with
    its slot still empty, it is halted as Unauthorized. *)
Theorem ensureLoggedIn_unauthorized_iff_no_identity :
  forall req res,
    (snd (ensureLoggedIn req res) = Next (Some (UnauthorizedError None)) <->
       user res = None) /\
    (forall err, snd (ensureLoggedIn req res) = Next (Some err) ->
       kind_of err = Unauthorized /\ user res = None) /\
    (snd (ensureLoggedIn req res) = Next None <-> is_Some (user res)) /\
    (authHeader req = None -> run [authenticate] req res = (res, Next None)) /\
    (authHeader req = None -> user res = None ->
       run [authenticate; ensureLoggedIn] req res =
         (res, Next (Some (UnauthorizedError None)))).
Proof.
  intros req res. rewrite ensureLoggedIn_cases. simpl.
  split; [|split; [|split; [|split]]].
  - destruct (user res); split; (discriminate || reflexivity).
  - intros err. destruct (user res); intros [= <-]; by split.
  - destruct (user res) as [payload|]; split.
    + intros _. by exists payload.
    + reflexivity.
    + discriminate.
    + intros [payload Hnone]. discriminate Hnone.
  - intros Hnone. cbn [run].
    rewrite authenticateJWT_rejected; [reflexivity|].
    unfold Auth.rejected. by rewrite (bearer_token_no_header _ Hnone).
  - intros Hnone Hempty.
    assert (Hrej : rejected req)
      by (unfold Auth.rejected; by rewrite (bearer_token_no_header _ Hnone)).
    cbn [run]. rewrite (authenticateJWT_rejected _ _ Hrej).
    rewrite ensureLoggedIn_cases, Hempty. reflexivity.
Qed.

End AuthenticateFacts.

(** A token that verifies is decoded into the slot; the prefix may be
    written bearer, and blanks around the token are dropped. *)
Example authenticateJWT_valid_token :
  authenticateJWT example_verify "secret-dev" (with_authorization "bearer  u1.token ") fresh =
    (set_user fresh (payload_of {| username := "u1"; isAdmin := false |}), Next None).
Proof. vm_compute. reflexivity. Qed.

(** A token that does not verify, no header at all and an empty header
    all leave a fresh response as it is. *)
Example authenticateJWT_no_identity :
  authenticateJWT example_verify "secret-dev" (with_authorization "Bearer forged") fresh =
    (fresh, Next None) /\
  authenticateJWT example_verify "secret-dev" {| headers := None; params := ∅ |} fresh =
    (fresh, Next None) /\
  authenticateJWT example_verify "secret-dev" (with_authorization "") fresh =
    (fresh, Next None).
Proof. repeat split; vm_compute; reflexivity. Qed.

(** The route GET /users/:username: u1 reads its own record, and an
    anonymous request is stopped by ensureLoggedIn. *)
Example users_route_chain :
  snd (run [authenticateJWT example_verify "secret-dev"; ensureLoggedIn; ensureAdminOrUser]
         {| headers := Some {[ "authorization" := "Bearer u1.token" ]};
            params := {[ "username" := "u1" ]} |} fresh) = Next None /\
  snd (run [authenticateJWT example_verify "secret-dev"; ensureLoggedIn; ensureAdminOrUser]
         req_u1 fresh) = Next (Some (UnauthorizedError None)).
Proof. split; vm_compute; reflexivity. Qed.

(* ===================================================================== *)
(** ** Facts about Company.update *)
(* ===================================================================== *)

Section CompanyFacts.

Import Company.

Implicit Types (handle : string) (data : patch).

Lemma update_statement_nonempty handle data :
  data <> [] ->
  update_statement handle data =
    inr {| text := querySql (join ", " (fragments jsToSql 1 (data.*1)))
                     (handleVarIdx (data.*2));
           binds := (data.*2 ++ [JStr handle])%list |}.
Proof.
  intros Hdata. unfold update_statement.
  by rewrite (sqlForPartialUpdate_nonempty _ _ Hdata).
Qed.

(** An empty data object never reaches the database. *)
Lemma update_empty_data (E : Type) (db_query : string -> list jsval -> E + list object)
    handle :
  update E db_query handle [] = inl (Threw (BadRequestError (Some "No data"))).
Proof. reflexivity. Qed.

(** *** Reading the parameters of a statement *)

























(** The statement update builds for the handle c1 and two fields. *)
Example update_statement_two_fields :
  update_statement "c1" [("name", JStr "New"); ("numEmployees", JNum 3)] =
    inr {| text :=
             querySql (dquote +:+ "name" +:+ dquote +:+ "=$1, " +:+
                       dquote +:+ "num_employees" +:+ dquote +:+ "=$2") "$3";
           binds := [JStr "New"; JNum 3; JStr "c1"] |}.
Proof. vm_compute. reflexivity. Qed.

End CompanyFacts.


(* ===================================================================== *)
(** ** Facts about Company.findAll, get, create and remove *)
(* ===================================================================== *)

Section CompanyQueryFacts.

Import Company.

(** Number::toString, the parameter of [to_string]. *)
Variable Number_toString : Z -> string.

Local Abbreviation to_string := (Js.to_string Number_toString).
Local Abbreviation findAll_conditions := (Company.findAll_conditions Number_toString).
Local Abbreviation findAll_statement := (Company.findAll_statement Number_toString).

Implicit Types (f : filter) (c : conditions) (handle : string).

(** The condition and the value that findAll may push for a filter. *)
Definition pushes (f : filter) (condition : string) (value : jsval) : Prop :=
  (condition = "num_employees >= " /\ value = minEmployees f /\
   minEmployees f <> JUndefined) \/
  (condition = "num_employees <= " /\ value = maxEmployees f /\
   maxEmployees f <> JUndefined) \/
  (condition = "name ILIKE " /\ value = JStr ("%" +:+ to_string (name f) +:+ "%") /\
   truthy (name f) = true).

(** The invariant of the two arrays: as long as each other, and the
    expression at index i is a condition of the filter followed by the
    placeholder $(i+1), whose value sits at index i. *)
Definition aligned (f : filter) (c : conditions) : Prop :=
  length (whereExpressions c) = length (queryValues c) /\
  forall i e,
    whereExpressions c !! i = Some e ->
    exists condition value,
      e = condition +:+ "$" +:+ number_to_string (i + 1) /\
      queryValues c !! i = Some value /\
      pushes f condition value.

Lemma aligned_empty f : aligned f {| whereExpressions := []; queryValues := [] |}.
Proof.
  split; [reflexivity|]. intros i e Hi. simpl in Hi. by rewrite lookup_nil in Hi.
Qed.

Lemma aligned_push f c condition value :
  aligned f c -> pushes f condition value ->
  aligned f (push_condition condition value c).
Proof.
  intros [Hlen Hexprs] Hpush. unfold push_condition. split; simpl.
  - rewrite !length_app. simpl. lia.
  - intros i e Hi.
    destruct (decide (i < length (whereExpressions c))) as [Hlt | Hge].
    + rewrite lookup_app_l in Hi by exact Hlt.
      destruct (Hexprs i e Hi) as (cond' & v' & He & Hv & Hp).
      exists cond', v'. split; [exact He|]. split; [|exact Hp].
      rewrite lookup_app_l by lia. exact Hv.
    + rewrite lookup_app_r in Hi by lia.
      destruct (i - length (whereExpressions c)) as [|k] eqn:Hk; simpl in Hi;
        [|by rewrite lookup_nil in Hi].
      injection Hi as <-. exists condition, value.
      assert (i = length (queryValues c)) as -> by lia.
      split; [|split; [|exact Hpush]].
      * rewrite length_app. simpl. reflexivity.
      * rewrite lookup_app_r by lia. by rewrite Nat.sub_diag.
Qed.

Lemma strict_neq_undefined (v : jsval) :
  strict_neq v JUndefined = true <-> v <> JUndefined.
Proof.
  unfold strict_neq, strict_eq. rewrite negb_true_iff, bool_decide_eq_false. reflexivity.
Qed.

Lemma findAll_conditions_aligned f : aligned f (findAll_conditions f).
Proof.
  unfold Company.findAll_conditions.
  set (c0 := {| whereExpressions := []; queryValues := [] |}).
  assert (H0 : aligned f c0) by apply aligned_empty.
  destruct (strict_neq (minEmployees f) JUndefined) eqn:Hmin.
  - apply strict_neq_undefined in Hmin.
    assert (H1 : aligned f (push_condition "num_employees >= " (minEmployees f) c0))
      by (apply aligned_push; [exact H0 | left; auto]).
    destruct (strict_neq (maxEmployees f) JUndefined) eqn:Hmax.
    + apply strict_neq_undefined in Hmax.
      destruct (truthy (name f)) eqn:Hname.
      * apply aligned_push; [apply aligned_push; [exact H1 | right; left; auto]
                            | right; right; auto].
      * apply aligned_push; [exact H1 | right; left; auto].
    + destruct (truthy (name f)) eqn:Hname.
      * apply aligned_push; [exact H1 | right; right; auto].
      * exact H1.
  - destruct (strict_neq (maxEmployees f) JUndefined) eqn:Hmax.
    + apply strict_neq_undefined in Hmax.
      destruct (truthy (name f)) eqn:Hname.
      * apply aligned_push; [apply aligned_push; [exact H0 | right; left; auto]
                            | right; right; auto].
      * apply aligned_push; [exact H0 | right; left; auto].
    + destruct (truthy (name f)) eqn:Hname.
      * apply aligned_push; [exact H0 | right; right; auto].
      * exact H0.
Qed.

(** X1: in the query findAll builds, the WHERE expressions are as many as
    the bind values, and the expression at index i is one of the three
    conditions, for a filter that is given, followed by the placeholder
    $(i+1), which is bound to that filter's value (the name wrapped in
    percent signs). *)
Theorem findAll_placeholders_aligned :
  forall f,
    binds (findAll_statement f) = queryValues (findAll_conditions f) /\
    length (whereExpressions (findAll_conditions f)) = length (binds (findAll_statement f)) /\
    forall i e,
      whereExpressions (findAll_conditions f) !! i = Some e ->
      exists condition value,
        e = condition +:+ "$" +:+ number_to_string (i + 1) /\
        bound (findAll_statement f) (i + 1) = Some value /\
        pushes f condition value.
Proof.
  intros f. destruct (findAll_conditions_aligned f) as [Hlen Hexprs].
  split; [reflexivity|]. split; [exact Hlen|].
  intros i e Hi. destruct (Hexprs i e Hi) as (condition & value & He & Hv & Hp).
  exists condition, value. split; [exact He|]. split; [|exact Hp].
  unfold bound. rewrite Nat.add_1_r. exact Hv.
Qed.

(** No filter is given: the employee bounds are [undefined] and the name
    is falsy (not given, or the empty string). *)
Definition unfiltered (f : filter) : Prop :=
  minEmployees f = JUndefined /\ maxEmployees f = JUndefined /\ truthy (name f) = false.

Lemma push_condition_values condition value c :
  queryValues (push_condition condition value c) <> [].
Proof. unfold push_condition. simpl. by destruct (queryValues c). Qed.

Lemma findAll_conditions_unfiltered f :
  unfiltered f ->
  findAll_conditions f = {| whereExpressions := []; queryValues := [] |}.
Proof.
  intros (Hmin & Hmax & Hname). unfold Company.findAll_conditions.
  by rewrite Hmin, Hmax, Hname.
Qed.

Lemma findAll_conditions_filtered f :
  ~ unfiltered f -> queryValues (findAll_conditions f) <> [].
Proof.
  intros Hsome. unfold Company.findAll_conditions.
  destruct (truthy (name f)) eqn:Hname; [apply push_condition_values|].
  destruct (strict_neq (maxEmployees f) JUndefined) eqn:Hmax;
    [apply push_condition_values|].
  destruct (strict_neq (minEmployees f) JUndefined) eqn:Hmin;
    [apply push_condition_values|].
  exfalso. apply Hsome. repeat split; [| |exact Hname].
  - destruct (decide (minEmployees f = JUndefined)) as [|Hne]; [done|].
    apply strict_neq_undefined in Hne. congruence.
  - destruct (decide (maxEmployees f = JUndefined)) as [|Hne]; [done|].
    apply strict_neq_undefined in Hne. congruence.
Qed.

Lemma unfiltered_dec f : unfiltered f \/ ~ unfiltered f.
Proof.
  unfold unfiltered.
  destruct (decide (minEmployees f = JUndefined)); [|tauto].
  destruct (decide (maxEmployees f = JUndefined)); [|tauto].
  destruct (truthy (name f)); [right; intros (_ & _ & Hn); discriminate Hn | tauto].
Qed.

(** X2: findAll adds a WHERE clause exactly when a filter is given. With
    no filter (a bound of 0 or null counts as given, an empty name does
    not) the query is the plain SELECT ordered by name, with no bind
    value; otherwise the expressions, joined by AND, stand between the
    SELECT and the ORDER BY, and there is a bind value. *)
Theorem findAll_where_iff_filtered :
  forall f,
    (unfiltered f <-> binds (findAll_statement f) = []) /\
    (unfiltered f ->
       text (findAll_statement f) =
         "SELECT " +:+ company_columns +:+ " FROM companies" +:+ " ORDER BY name") /\
    (~ unfiltered f ->
       text (findAll_statement f) =
         "SELECT " +:+ company_columns +:+ " FROM companies" +:+ " WHERE " +:+
         join " AND " (whereExpressions (findAll_conditions f)) +:+ " ORDER BY name").
Proof.
  intros f. split; [|split].
  - split.
    + intros Hnone. unfold Company.findAll_statement. simpl.
      by rewrite (findAll_conditions_unfiltered _ Hnone).
    + intros Hbinds. destruct (unfiltered_dec f) as [Hnone | Hsome]; [exact Hnone|].
      exfalso. by apply (findAll_conditions_filtered _ Hsome).
  - intros Hnone. unfold Company.findAll_statement.
    rewrite (findAll_conditions_unfiltered _ Hnone). simpl.
    by rewrite !append_assoc.
  - intros Hsome. unfold Company.findAll_statement.
    pose proof (findAll_conditions_filtered _ Hsome) as Hvalues.
    destruct (findAll_conditions_aligned f) as [Hlen _].
    destruct (whereExpressions (findAll_conditions f)) as [|e exprs] eqn:Hexprs.
    + simpl in Hlen. symmetry in Hlen. apply length_zero_iff_nil in Hlen. contradiction.
    + simpl. by rewrite !append_assoc.
Qed.

(** findAll called with no argument. *)
Example findAll_default_argument :
  findAll_statement no_filter =
    {| text := "SELECT " +:+ company_columns +:+ " FROM companies ORDER BY name";
       binds := [] |}.
Proof. vm_compute. reflexivity. Qed.

(** X3: the text of findAll's query depends on which filters are given
    and not on their values: two filters that give the same bounds and
    both or neither a name lead to the same text, the values going to the
    bind array only. *)
Theorem findAll_text_ignores_values :
  forall f f',
    (minEmployees f = JUndefined <-> minEmployees f' = JUndefined) ->
    (maxEmployees f = JUndefined <-> maxEmployees f' = JUndefined) ->
    truthy (name f) = truthy (name f') ->
    text (findAll_statement f) = text (findAll_statement f') /\
    length (binds (findAll_statement f)) = length (binds (findAll_statement f')).
Proof.
  intros f f' Hmin Hmax Hname.
  assert (Hmin' : strict_neq (minEmployees f) JUndefined =
                  strict_neq (minEmployees f') JUndefined).
  { unfold strict_neq, strict_eq. f_equal. by apply bool_decide_ext. }
  assert (Hmax' : strict_neq (maxEmployees f) JUndefined =
                  strict_neq (maxEmployees f') JUndefined).
  { unfold strict_neq, strict_eq. f_equal. by apply bool_decide_ext. }
  unfold Company.findAll_statement, Company.findAll_conditions. rewrite Hmin', Hmax', Hname.
  destruct (strict_neq (minEmployees f') JUndefined),
    (strict_neq (maxEmployees f') JUndefined), (truthy (name f')); split; reflexivity.
Qed.

(** X4: the statement text that update builds depends on the keys of the
    data object only. Neither the handle nor any value is spliced into
    it: a call with another handle and other values for the same keys
    builds the same text, and binds as many values. *)
Theorem update_text_ignores_handle_and_values :
  forall handle handle' (data data' : patch),
    data.*1 = data'.*1 ->
    match update_statement handle data, update_statement handle' data' with
    | inr st, inr st' =>
        text st = text st' /\ length (binds st) = length (binds st')
    | inl err, inl err' => err = err' /\ data = [] /\ data' = []
    | _, _ => False
    end.
Proof.
  intros handle handle' data data' Hkeys.
  assert (Hlen : length data = length data').
  { by rewrite <- (length_fmap fst data), Hkeys, length_fmap. }
  destruct data as [|entry rest], data' as [|entry' rest']; try discriminate Hlen.
  - repeat split.
  - rewrite !update_statement_nonempty by discriminate.
    cbn [text binds]. rewrite Hkeys. unfold handleVarIdx.
    rewrite !length_app, !length_fmap, Hlen. by split.
Qed.

Lemma update_text_ignores_handle_and_values_witness :
  match update_statement "c1" [("name", JStr "New"); ("logoUrl", JNull)],
        update_statement "c2'; DROP TABLE companies; --"
          [("name", JStr "x', handle='c9"); ("logoUrl", JStr "http://l.png")] with
  | inr st, inr st' =>
      text st = text st' /\ length (binds st) = length (binds st')
  | inl err, inl err' =>
      err = err' /\
      [("name", JStr "New"); ("logoUrl", JNull)] = [] /\
      [("name", JStr "x', handle='c9"); ("logoUrl", JStr "http://l.png")] = []
  | _, _ => False
  end.
Proof.
  apply (update_text_ignores_handle_and_values "c1" "c2'; DROP TABLE companies; --"
           [("name", JStr "New"); ("logoUrl", JNull)]
           [("name", JStr "x', handle='c9"); ("logoUrl", JStr "http://l.png")]).
  reflexivity.
Defined.

(** X5: how the methods of Company fail. Each of get, update, remove and
    create passes on, unchanged, the error of a query that the database
    rejects. Apart from that, get and remove throw only NotFound naming
    the handle, exactly when their query returns no row; update throws
    the helper's BadRequest on an empty data object, before any query,
    and the same NotFound when its query returns no row; create throws
    only BadRequest naming the handle, exactly when the duplicate check
    returns a row, and fails besides when the duplicate check or the
    INSERT is rejected. *)
Theorem Company_failures :
  forall (E : Type) (db_query : string -> list jsval -> E + list object) handle
         (data : patch) (new_company : object),
    let not_found := NotFoundError (Some ("No company: " +:+ handle)) in
    let insert_values :=
      [prop new_company "handle"; prop new_company "name";
       prop new_company "numEmployees"; prop new_company "description";
       prop new_company "logoUrl"] in
    (forall failed, get E db_query handle = inl failed <->
       (db_query get_sql [JStr handle] = inr [] /\ failed = Threw not_found) \/
       (exists err, db_query get_sql [JStr handle] = inl err /\
                    failed = QueryRejected err)) /\
    (forall failed, remove E db_query handle = inl failed <->
       (db_query remove_sql [JStr handle] = inr [] /\ failed = Threw not_found) \/
       (exists err, db_query remove_sql [JStr handle] = inl err /\
                    failed = QueryRejected err)) /\
    (forall failed, update E db_query handle data = inl failed <->
       (data = [] /\ failed = Threw (BadRequestError (Some "No data"))) \/
       (exists st, update_statement handle data = inr st /\
          ((db_query (text st) (binds st) = inr [] /\ failed = Threw not_found) \/
           (exists err, db_query (text st) (binds st) = inl err /\
                        failed = QueryRejected err)))) /\
    (forall failed, create Number_toString E db_query new_company = inl failed <->
       (exists row rows,
          db_query duplicate_check_sql [prop new_company "handle"] = inr (row :: rows) /\
          failed = Threw (BadRequestError
                     (Some ("Duplicate company: " +:+
                            to_string (prop new_company "handle"))))) \/
       (exists err, db_query duplicate_check_sql [prop new_company "handle"] = inl err /\
                    failed = QueryRejected err) \/
       (exists err, db_query duplicate_check_sql [prop new_company "handle"] = inr [] /\
                    db_query insert_sql insert_values = inl err /\
                    failed = QueryRejected err)).
Proof.
  intros E db_query handle data new_company not_found insert_values.
  subst not_found insert_values.
  split; [|split; [|split]]; intros failed.
  - unfold get. destruct (db_query get_sql [JStr handle]) as [err|[|row rows]].
    + split; [intros [= <-]; right; eauto |].
      intros [[Hq _] | (err' & [= <-] & ->)]; [discriminate Hq | reflexivity].
    + split; [intros [= <-]; left; by split |].
      intros [[_ ->] | (err & Hq & _)]; [reflexivity | discriminate Hq].
    + split; [discriminate |].
      intros [[Hq _] | (err & Hq & _)]; discriminate Hq.
  - unfold remove. destruct (db_query remove_sql [JStr handle]) as [err|[|row rows]].
    + split; [intros [= <-]; right; eauto |].
      intros [[Hq _] | (err' & [= <-] & ->)]; [discriminate Hq | reflexivity].
    + split; [intros [= <-]; left; by split |].
      intros [[_ ->] | (err & Hq & _)]; [reflexivity | discriminate Hq].
    + split; [discriminate |].
      intros [[Hq _] | (err & Hq & _)]; discriminate Hq.
  - unfold update. destruct data as [|entry rest].
    + split; [intros [= <-]; left; by split |].
      intros [[_ ->] | (st & Hst & _)]; [reflexivity | discriminate Hst].
    + destruct (update_statement handle (entry :: rest)) as [e|st] eqn:Hst.
      { rewrite update_statement_nonempty in Hst by discriminate. discriminate Hst. }
      destruct (db_query (text st) (binds st)) as [err|[|row rows]] eqn:Hq.
      * split.
        -- intros [= <-]. right. exists st. split; [reflexivity|]. right. eauto.
        -- intros [[Hnil _] | (st' & [= <-] & [[Hq' _] | (err' & Hq' & ->)])];
             [discriminate Hnil | congruence | congruence].
      * split.
        -- intros [= <-]. right. exists st. split; [reflexivity|]. left. by split.
        -- intros [[Hnil _] | (st' & [= <-] & [[_ ->] | (err' & Hq' & _)])];
             [discriminate Hnil | reflexivity | congruence].
      * split; [discriminate|].
        intros [[Hnil _] | (st' & [= <-] & [[Hq' _] | (err' & Hq' & _)])];
          [discriminate Hnil | congruence | congruence].
  - unfold create.
    destruct (db_query duplicate_check_sql [prop new_company "handle"])
      as [err|[|row rows]].
    + split; [intros [= <-]; right; left; eauto |].
      intros [(r & rs & Hq & _) | [(err' & [= <-] & ->) | (err' & Hq & _)]];
        [discriminate Hq | reflexivity | discriminate Hq].
    + destruct (db_query insert_sql _) as [err|inserted] eqn:Hins.
      * split; [intros [= <-]; right; right; eauto |].
        intros [(r & rs & Hq & _) | [(err' & Hq & _) | (err' & _ & [= <-] & ->)]];
          [discriminate Hq | discriminate Hq | reflexivity].
      * split; [discriminate|].
        intros [(r & rs & Hq & _) | [(err' & Hq & _) | (err' & _ & Hq & _)]];
          discriminate Hq.
    + split; [intros [= <-]; left; eauto |].
      intros [(r & rs & _ & ->) | [(err' & Hq & _) | (err' & Hq & _)]];
        [reflexivity | discriminate Hq | discriminate Hq].
Qed.

End CompanyQueryFacts.

Lemma findAll_text_ignores_values_witness :
  Company.text (Company.findAll_statement plain_decimal
          {| Company.name := JStr "net"; Company.minEmployees := JNum 0; Company.maxEmployees := JUndefined |}) =
  Company.text (Company.findAll_statement plain_decimal
          {| Company.name := JStr "x' OR 1=1 --"; Company.minEmployees := JNull;
             Company.maxEmployees := JUndefined |}) /\
  length (Company.binds (Company.findAll_statement plain_decimal
          {| Company.name := JStr "net"; Company.minEmployees := JNum 0; Company.maxEmployees := JUndefined |})) =
  length (Company.binds (Company.findAll_statement plain_decimal
          {| Company.name := JStr "x' OR 1=1 --"; Company.minEmployees := JNull;
             Company.maxEmployees := JUndefined |})).
Proof.
  apply (findAll_text_ignores_values plain_decimal
           {| Company.name := JStr "net"; Company.minEmployees := JNum 0; Company.maxEmployees := JUndefined |}
           {| Company.name := JStr "x' OR 1=1 --"; Company.minEmployees := JNull;
              Company.maxEmployees := JUndefined |}).
  - split; discriminate.
  - split; reflexivity.
  - reflexivity.
Defined.

(* ===================================================================== *)
(** ** Facts about the guard stacks of the routes *)
(* ===================================================================== *)

Section RouteFacts.

Import Routes.

Implicit Types (req : request) (res : response).

(** The two stacks, by cases on the identity slot. *)
Lemma run_admin_only req res :
  run admin_only req res =
    (res, Next (match user res with
                | None => Some (UnauthorizedError None)
                | Some payload =>
                    if truthy (prop payload "isAdmin") then None
                    else Some (ForbiddenError (Some must_be_admin))
                end)).
Proof.
  unfold admin_only. cbn [run]. rewrite ensureLoggedIn_cases.
  destruct (user res) as [payload|] eqn:Huser; [|reflexivity].
  unfold ensureAdmin, no_user, not_admin. rewrite Huser. simpl.
  by destruct (truthy (prop payload "isAdmin")).
Qed.

Lemma run_admin_or_owner req res :
  run admin_or_owner req res =
    (res, Next (match user res with
                | None => Some (UnauthorizedError None)
                | Some payload =>
                    if truthy (prop payload "isAdmin")
                       || strict_eq (prop payload "username") (param req "username")
                    then None
                    else Some (ForbiddenError (Some must_be_admin_or_owner))
                end)).
Proof.
  unfold admin_or_owner. cbn [run]. rewrite ensureLoggedIn_cases.
  destruct (user res) as [payload|] eqn:Huser; [|reflexivity].
  unfold ensureAdminOrUser, no_user, not_admin, not_owner, strict_neq.
  rewrite Huser. simpl.
  destruct (truthy (prop payload "isAdmin")); [reflexivity|]. simpl.
  by destruct (strict_eq (prop payload "username") (param req "username")).
Qed.

(** Guards in front of a stack run first, and the stack goes on from the
    response they leave. *)
Lemma run_cons (m : middleware) (stack : list middleware) req res :
  run (m :: stack) req res =
    match m req res with
    | (res', Next None) => run stack req res'
    | (res', Next (Some err)) => (res', Next (Some err))
    end.
Proof. reflexivity. Qed.

(** X6: the admin-only routes. Behind ensureLoggedIn and ensureAdmin the
    handler runs, on the response as it came in, exactly for a user whose
    isAdmin is truthy; a request without identity is turned away as
    Unauthorized (by the first guard, so never as Forbidden), and a user
    who is no admin as Forbidden. *)
Theorem admin_only_route :
  forall (A : Type) (handler : request -> response -> A) req res,
    route admin_only handler req res =
      match user res with
      | None => Rejected (UnauthorizedError None)
      | Some payload =>
          if truthy (prop payload "isAdmin")
          then Handled (handler req res)
          else Rejected (ForbiddenError (Some must_be_admin))
      end.
Proof.
  intros A handler req res. unfold route. rewrite run_admin_only.
  destruct (user res) as [payload|]; [|reflexivity].
  by destruct (truthy (prop payload "isAdmin")).
Qed.

(** X7: the routes of one user. Behind ensureLoggedIn and
    ensureAdminOrUser the handler runs exactly for a user whose isAdmin
    is truthy or whose username is strictly equal to the route's
    parameter; a request without identity is Unauthorized, any other
    user Forbidden. *)
Theorem admin_or_owner_route :
  forall (A : Type) (handler : request -> response -> A) req res,
    route admin_or_owner handler req res =
      match user res with
      | None => Rejected (UnauthorizedError None)
      | Some payload =>
          if truthy (prop payload "isAdmin")
             || strict_eq (prop payload "username") (param req "username")
          then Handled (handler req res)
          else Rejected (ForbiddenError (Some must_be_admin_or_owner))
      end.
Proof.
  intros A handler req res. unfold route. rewrite run_admin_or_owner.
  destruct (user res) as [payload|]; [|reflexivity].
  by destruct (truthy (prop payload "isAdmin")
               || strict_eq (prop payload "username") (param req "username")).
Qed.

(** X8: the guards are ordered by strength. Whoever passes ensureAdmin
    passes ensureAdminOrUser on every route, and whoever passes
    ensureAdminOrUser passes ensureLoggedIn; so putting ensureLoggedIn in
    front of either changes the error of an anonymous request and not who
    gets through. *)
Theorem guards_ordered_by_strength :
  forall req res,
    (snd (ensureAdmin req res) = Next None ->
       forall req', snd (ensureAdminOrUser req' res) = Next None) /\
    (snd (ensureAdminOrUser req res) = Next None ->
       snd (ensureLoggedIn req res) = Next None) /\
    (snd (run admin_only req res) = Next None <->
       snd (run [ensureAdmin] req res) = Next None) /\
    (snd (run admin_or_owner req res) = Next None <->
       snd (run [ensureAdminOrUser] req res) = Next None).
Proof.
  intros req res. split; [|split; [|split]].
  - intros Hadmin req'. apply ensureAdmin_continues in Hadmin as (payload & Hu & Ha).
    apply ensureAdminOrUser_continues. exists payload. auto.
  - intros Howner. apply ensureAdminOrUser_continues in Howner as (payload & Hu & _).
    rewrite ensureLoggedIn_cases, Hu. reflexivity.
  - unfold admin_only. cbn [run]. rewrite ensureLoggedIn_cases.
    unfold ensureAdmin, no_user, not_admin.
    destruct (user res) as [payload|]; simpl; [|split; discriminate].
    destruct (truthy (prop payload "isAdmin")); simpl; reflexivity.
  - unfold admin_or_owner. cbn [run]. rewrite ensureLoggedIn_cases.
    unfold ensureAdminOrUser, no_user, not_admin, not_owner.
    destruct (user res) as [payload|]; simpl; [|split; discriminate].
    destruct (truthy (prop payload "isAdmin")); simpl; [reflexivity|].
    destruct (strict_neq (prop payload "username") (param req "username")); reflexivity.
Qed.

End RouteFacts.

(* ===================================================================== *)
(** ** Facts about authenticateJWT and the token it reads *)
(* ===================================================================== *)

Section TokenFacts.

Import Routes.

Variable jwt_verify : string -> string -> option object.
Variable SECRET_KEY : string.

Implicit Types (req : request) (res : response).

Local Abbreviation authenticate := (authenticateJWT jwt_verify SECRET_KEY).

(** The payload of the request's credential, when it has one that
    verifies. *)
Definition verified (req : request) : option object :=
  match bearer_token req with
  | Some token => jwt_verify token SECRET_KEY
  | None => None
  end.

Lemma authenticateJWT_verified req res :
  authenticate req res =
    match verified req with
    | Some payload => (set_user res payload, Next None)
    | None => (res, Next None)
    end.
Proof.
  unfold authenticateJWT, verified.
  destruct (bearer_token req) as [token|]; [|reflexivity].
  by destruct (jwt_verify token SECRET_KEY).
Qed.

Lemma user_set_user res (payload : object) : user (set_user res payload) = Some payload.
Proof. unfold user, set_user. simpl. apply lookup_insert_eq. Qed.

(** X9: from the credential to the handler. For a request that arrives
    with an empty identity slot, authenticateJWT followed by the guards
    of an admin-only route runs the handler exactly when the token
    verifies to a payload whose isAdmin is truthy; on the routes of one
    user, exactly when that payload is an admin's or carries the route's
    username. A missing or rejected credential is Unauthorized, any other
    verified user Forbidden. *)
Theorem token_decides_access :
  forall (A : Type) (handler : request -> response -> A) req res,
    user res = None ->
    route (authenticate :: admin_only) handler req res =
      match verified req with
      | None => Rejected (UnauthorizedError None)
      | Some payload =>
          if truthy (prop payload "isAdmin")
          then Handled (handler req (set_user res payload))
          else Rejected (ForbiddenError (Some must_be_admin))
      end /\
    route (authenticate :: admin_or_owner) handler req res =
      match verified req with
      | None => Rejected (UnauthorizedError None)
      | Some payload =>
          if truthy (prop payload "isAdmin")
             || strict_eq (prop payload "username") (param req "username")
          then Handled (handler req (set_user res payload))
          else Rejected (ForbiddenError (Some must_be_admin_or_owner))
      end.
Proof.
  intros A handler req res Hempty.
  unfold route. rewrite !run_cons, authenticateJWT_verified.
  destruct (verified req) as [payload|].
  - rewrite run_admin_only, run_admin_or_owner, user_set_user.
    split.
    + by destruct (truthy (prop payload "isAdmin")).
    + by destruct (truthy (prop payload "isAdmin")
                   || strict_eq (prop payload "username") (param req "username")).
  - rewrite run_admin_only, run_admin_or_owner, Hempty. by split.
Qed.

(** X11: authenticateJWT writes the user property of [res.locals] and
    nothing else; it never empties a slot that holds an identity; and
    running it a second time on the same request changes nothing. *)
Theorem authenticateJWT_frame :
  forall req res,
    (forall key, key <> "user" ->
       locals (fst (authenticate req res)) !! key = locals res !! key) /\
    (is_Some (user res) -> is_Some (user (fst (authenticate req res)))) /\
    authenticate req (fst (authenticate req res)) = authenticate req res.
Proof.
  intros req res. rewrite !authenticateJWT_verified.
  destruct (verified req) as [payload|]; simpl.
  - split; [|split].
    + intros key Hkey. by apply lookup_insert_ne.
    + intros _. rewrite user_set_user. by exists payload.
    + unfold set_user. simpl. by rewrite insert_insert_eq.
  - split; [|split]; [reflexivity | tauto | reflexivity].
Qed.

Lemma substring_all (s : string) : String.substring 0 (String.length s) s = s.
Proof. induction s as [|a s IH]; simpl; [reflexivity | by rewrite IH]. Qed.

Lemma prefix_empty (s : string) : String.prefix EmptyString s = true.
Proof. by destruct s. Qed.

Lemma strip_bearer_prefix (tok : string) :
  strip_bearer ("Bearer " +:+ tok) = tok /\ strip_bearer ("bearer " +:+ tok) = tok.
Proof.
  split.
  - change ("Bearer " +:+ tok) with
      (String "B" (String "e" (String "a" (String "r" (String "e" (String "r"
        (String " " tok))))))).
    simpl. rewrite prefix_empty, Nat.sub_0_r. apply substring_all.
  - change ("bearer " +:+ tok) with
      (String "b" (String "e" (String "a" (String "r" (String "e" (String "r"
        (String " " tok))))))).
    simpl. rewrite prefix_empty, Nat.sub_0_r. apply substring_all.
Qed.

Lemma trim_end_idempotent (s : string) : trim_end (trim_end s) = trim_end s.
Proof.
  induction s as [|a s IH]; [reflexivity|]. simpl.
  destruct (trim_end s) as [|b kept] eqn:Hkept.
  - destruct (is_space a) eqn:Ha; simpl; [reflexivity | by rewrite Ha].
  - simpl in *. by rewrite IH.
Qed.

(** What trim_start leaves is empty or begins with a character that is
    no white space. *)
Lemma trim_start_head (s : string) :
  match trim_start s with
  | EmptyString => True
  | String a _ => is_space a = false
  end.
Proof.
  induction s as [|a s IH]; simpl; [exact I|].
  destruct (is_space a) eqn:Ha; [exact IH | simpl; exact Ha].
Qed.

Lemma trim_end_head (a : ascii) (s : string) :
  is_space a = false -> exists kept, trim_end (String a s) = String a kept.
Proof.
  intros Ha. simpl. destruct (trim_end s) as [|b kept].
  - rewrite Ha. by exists EmptyString.
  - by exists (String b kept).
Qed.

Lemma trim_idempotent (s : string) : trim (trim s) = trim s.
Proof.
  unfold trim. pose proof (trim_start_head s) as Hhead.
  destruct (trim_start s) as [|a rest]; [reflexivity|].
  destruct (trim_end_head a rest Hhead) as [kept Hkept].
  rewrite Hkept. simpl trim_start. rewrite Hhead, <- Hkept.
  apply trim_end_idempotent.
Qed.

(** X10: the header the clients send. For an authorization header made
    of "Bearer " (or "bearer ") and a token, the token handed to verify
    is that token without surrounding white space; when it verifies, its
    payload is what the identity slot holds afterwards, whatever the slot
    held before. *)
Theorem bearer_header_round_trip :
  forall req res (tok : string) (payload : object),
    authHeader req = Some ("Bearer " +:+ tok) \/
    authHeader req = Some ("bearer " +:+ tok) ->
    jwt_verify (trim tok) SECRET_KEY = Some payload ->
    bearer_token req = Some (trim tok) /\
    authenticate req res = (set_user res payload, Next None) /\
    user (fst (authenticate req res)) = Some payload.
Proof.
  intros req res tok payload Hheader Hverify.
  destruct (strip_bearer_prefix tok) as [Hupper Hlower].
  assert (Htoken : bearer_token req = Some (trim tok)).
  { unfold bearer_token.
    destruct Hheader as [-> | ->]; [rewrite Hupper | rewrite Hlower]; reflexivity. }
  split; [exact Htoken|].
  assert (Hauth : authenticate req res = (set_user res payload, Next None)).
  { unfold authenticateJWT. by rewrite Htoken, Hverify. }
  split; [exact Hauth|]. rewrite Hauth. apply user_set_user.
Qed.

(** X12: whatever the header, the token handed to verify has no white
    space left at either end: trimming it again gives it back. *)
Theorem bearer_token_trimmed :
  forall req (token : string),
    bearer_token req = Some token -> trim token = token.
Proof.
  intros req token. unfold bearer_token.
  destruct (authHeader req) as [h|]; [|discriminate].
  destruct (truthy (JStr h)); [|discriminate].
  intros [= <-]. apply trim_idempotent.
Qed.

End TokenFacts.

Lemma bearer_header_round_trip_witness :
  bearer_token (with_authorization "bearer  u1.token ") = Some (trim " u1.token ") /\
  authenticateJWT example_verify "secret-dev" (with_authorization "bearer  u1.token ") res_u1 =
    (set_user res_u1 (payload_of {| username := "u1"; isAdmin := false |}), Next None) /\
  user (fst (authenticateJWT example_verify "secret-dev"
               (with_authorization "bearer  u1.token ") res_u1)) =
    Some (payload_of {| username := "u1"; isAdmin := false |}).
Proof.
  apply (bearer_header_round_trip example_verify "secret-dev"
           (with_authorization "bearer  u1.token ") res_u1 " u1.token "
           (payload_of {| username := "u1"; isAdmin := false |})).
  - right. reflexivity.
  - reflexivity.
Defined.

Lemma bearer_token_trimmed_witness :
  bearer_token (with_authorization "Bearer   u1.token  ") = Some "u1.token" /\
  trim "u1.token" = "u1.token".
Proof.
  split; [reflexivity|].
  apply (bearer_token_trimmed (with_authorization "Bearer   u1.token  ") "u1.token").
  reflexivity.
Defined.

Lemma token_decides_access_witness :
  Routes.route (authenticateJWT example_verify "secret-dev" :: Routes.admin_only)
    (fun _ res => user res) (with_authorization "Bearer u1.token") fresh =
    match verified example_verify "secret-dev" (with_authorization "Bearer u1.token") with
    | None => Routes.Rejected (UnauthorizedError None)
    | Some payload =>
        if truthy (prop payload "isAdmin")
        then Routes.Handled (user (set_user fresh payload))
        else Routes.Rejected (ForbiddenError (Some must_be_admin))
    end /\
  Routes.route (authenticateJWT example_verify "secret-dev" :: Routes.admin_or_owner)
    (fun _ res => user res) (with_authorization "Bearer u1.token") fresh =
    match verified example_verify "secret-dev" (with_authorization "Bearer u1.token") with
    | None => Routes.Rejected (UnauthorizedError None)
    | Some payload =>
        if truthy (prop payload "isAdmin")
           || strict_eq (prop payload "username")
                (param (with_authorization "Bearer u1.token") "username")
        then Routes.Handled (user (set_user fresh payload))
        else Routes.Rejected (ForbiddenError (Some must_be_admin_or_owner))
    end.
Proof.
  apply (token_decides_access example_verify "secret-dev" (option object)
           (fun _ res => user res) (with_authorization "Bearer u1.token") fresh).
  reflexivity.
Defined.

(* ===================================================================== *)
(** ** Facts about the handlers of GET /jobs and of the job application *)
(* ===================================================================== *)

Section HandlerFacts.

Import Routes.

Implicit Types (req : request) (res : response) (query : gmap string string).

(** A filter parameter of GET /jobs is given: a title or a minimum
    salary that is not the empty string, or any hasEquity. *)
Definition filters_given (query : gmap string string) : bool :=
  truthy (from_option JStr JUndefined (query !! "title")) ||
  truthy (from_option JStr JUndefined (query !! "minSalary")) ||
  bool_decide (is_Some (query !! "hasEquity")).

Lemma jobs_filter_cases query :
  jobs_filter query =
    if filters_given query then inl (ReferenceError "Op") else inr ∅.
Proof.
  unfold jobs_filter, filters_given, Op.
  destruct (truthy (from_option JStr JUndefined (query !! "title"))); [reflexivity|].
  destruct (truthy (from_option JStr JUndefined (query !! "minSalary"))); [reflexivity|].
  destruct (query !! "hasEquity") as [flag|]; simpl.
  - by destruct (String.eqb flag "true").
  - reflexivity.
Qed.

(** X13: GET /jobs answers with jobs only when no filter is given, and
    then with all of them (the filter object is empty). As soon as a
    title, a minimum salary or hasEquity is given, building the filter
    throws on the unbound name Op: the handler hands that error to next,
    whatever the model would return. *)
Theorem get_jobs_filters :
  forall (Job_findAll : where_clause -> thrown + list object) query,
    (filters_given query = true ->
       get_jobs Job_findAll query = NextError (ReferenceError "Op")) /\
    (filters_given query = false ->
       get_jobs Job_findAll query =
         match Job_findAll ∅ with
         | inl err => NextError err
         | inr jobs => Json 200 jobs
         end) /\
    (forall jobs, get_jobs Job_findAll query = Json 200 jobs ->
       filters_given query = false /\ Job_findAll ∅ = inr jobs).
Proof.
  intros Job_findAll query. unfold get_jobs. rewrite jobs_filter_cases.
  destruct (filters_given query).
  - split; [reflexivity|]. split; [discriminate|].
    intros jobs Hjobs. discriminate Hjobs.
  - split; [discriminate|]. split; [reflexivity|].
    intros jobs Hjobs. split; [reflexivity|].
    destruct (Job_findAll ∅) as [err|found]; [discriminate Hjobs|]. congruence.
Qed.

(** X14: the job application route, POST /users/:username/jobs/:id,
    behind ensureLoggedIn. The handler reads [req.user], which none of
    the middleware sets (authenticateJWT writes [res.locals.user]): with
    it unset, a request with an identity ends in a TypeError handed to
    next and one without in Unauthorized, so no application is made
    whatever the identity. With [req.user] set, a user who is neither
    admin nor the route's user gets a 403 JSON reply, and nobody else
    does. *)
Theorem apply_for_job_route :
  forall (User_applyForJob : jsval -> jsval -> thrown + jsval) req res,
    route logged_in (apply_for_job User_applyForJob None) req res =
      match user res with
      | None => Rejected (UnauthorizedError None)
      | Some _ => Handled (NextError (TypeError "isAdmin"))
      end /\
    (forall applied,
       route logged_in (apply_for_job User_applyForJob None) req res <>
         Handled (Json 200 [("applied", applied)])) /\
    (forall u : object,
       apply_for_job User_applyForJob (Some u) req res =
         Json 403 [("error", JStr "Unauthorized")] <->
       truthy (prop u "isAdmin") = false /\ prop u "username" <> param req "username").
Proof.
  intros User_applyForJob req res.
  assert (Hroute : route logged_in (apply_for_job User_applyForJob None) req res =
            match user res with
            | None => Rejected (UnauthorizedError None)
            | Some _ => Handled (NextError (TypeError "isAdmin"))
            end).
  { unfold route, logged_in. cbn [run]. rewrite ensureLoggedIn_cases.
    by destruct (user res). }
  split; [exact Hroute|]. split.
  - intros applied. rewrite Hroute. by destruct (user res).
  - intros u. unfold apply_for_job.
    destruct (truthy (prop u "isAdmin")); simpl.
    + split; [|intros [Hfalse _]; discriminate Hfalse].
      destruct (User_applyForJob _ _); discriminate.
    + destruct (strict_neq (prop u "username") (param req "username")) eqn:Hneq.
      * split; [|reflexivity]. intros _. split; [reflexivity|].
        intros Hsame. apply strict_neq_false in Hsame. congruence.
      * apply strict_neq_false in Hneq. split; [|intros [_ Hne]; contradiction].
        destruct (User_applyForJob _ _); discriminate.
Qed.

End HandlerFacts.
